(** * threebot: the [bind] and [search] command plugins

    A shallow embedding of [threebot/commands/bind.py] and
    [threebot/commands/search.py], and the properties of the two handlers.

    Python text is modelled as the Rocq [string] of its UTF-8 bytes.  The
    handlers run in a small state-and-exception monad over the database
    connection, the reply sink and the audio output; a raised exception
    keeps the effects made before it, as in Python. *)

From Stdlib Require Import String Ascii List ZArith Lia Bool.
From Stdlib Require Import Sorted Permutation DecimalString DecimalPos.
Import ListNotations.
Open Scope string_scope.

(** ** Python builtins used by the handlers *)

Module Py.

(** Exceptions, by class.  [Exception msg] is [raise Exception(msg)].
    [ValueError lit] is the error [int(lit)] raises on text it does not
    convert; the interpreter builds its message from [lit].
    [Raised cls msg] stands for any other class a collaborator raises. *)
Inductive exn : Type :=
| Exception (msg : string)
| ValueError (lit : string)
| Raised (cls msg : string).

(** [str.startswith]: [startswith p s] is [s.startswith(p)]. *)
Fixpoint startswith (p s : string) : bool :=
  match p with
  | EmptyString => true
  | String a p' =>
      match s with
      | EmptyString => false
      | String b s' => Ascii.eqb a b && startswith p' s'
      end
  end.

(** ** [int(text)]

    [int] in base 10 on a [str], as CPython 3.11 does it with its default
    settings.  The text is first brought to ASCII: a character below 127
    is kept, a Unicode space becomes a blank, a Unicode decimal digit the
    ASCII digit of its value, and anything else makes the text invalid.
    The ASCII text is then read: optional surrounding whitespace, an
    optional sign, then digits which single underscores may separate,
    leading zeros allowed.  A literal of more than 4300 digits is refused
    ([sys.int_max_str_digits]).  Every failure is a [ValueError]. *)

(** The Unicode spaces from 127 on ([str.isspace]). *)
Definition unicode_space (cp : N) : bool :=
  ((cp =? 0x85) || (cp =? 0xA0) || (cp =? 0x1680)
   || ((0x2000 <=? cp) && (cp <=? 0x200A))
   || (cp =? 0x2028) || (cp =? 0x2029) || (cp =? 0x202F)
   || (cp =? 0x205F) || (cp =? 0x3000))%N.

(** The decimal digits of Unicode 14.0 beyond ASCII, as runs: the first
    code point of a run and its length.  The digit at offset [k] of a run
    has value [k mod 10]. *)
Definition decimal_runs : list (N * N) :=
  [(0x660, 10); (0x6F0, 10); (0x7C0, 10); (0x966, 10); (0x9E6, 10);
   (0xA66, 10); (0xAE6, 10); (0xB66, 10); (0xBE6, 10); (0xC66, 10);
   (0xCE6, 10); (0xD66, 10); (0xDE6, 10); (0xE50, 10); (0xED0, 10);
   (0xF20, 10); (0x1040, 10); (0x1090, 10); (0x17E0, 10); (0x1810, 10);
   (0x1946, 10); (0x19D0, 10); (0x1A80, 10); (0x1A90, 10); (0x1B50, 10);
   (0x1BB0, 10); (0x1C40, 10); (0x1C50, 10); (0xA620, 10); (0xA8D0, 10);
   (0xA900, 10); (0xA9D0, 10); (0xA9F0, 10); (0xAA50, 10); (0xABF0, 10);
   (0xFF10, 10); (0x104A0, 10); (0x10D30, 10); (0x11066, 10); (0x110F0, 10);
   (0x11136, 10); (0x111D0, 10); (0x112F0, 10); (0x11450, 10);
   (0x114D0, 10); (0x11650, 10); (0x116C0, 10); (0x11730, 10);
   (0x118E0, 10); (0x11950, 10); (0x11C50, 10); (0x11D50, 10);
   (0x11DA0, 10); (0x16A60, 10); (0x16AC0, 10); (0x16B50, 10);
   (0x1D7CE, 50); (0x1E140, 10); (0x1E2F0, 10); (0x1E950, 10);
   (0x1FBF0, 10)]%N.

Definition unicode_decimal (cp : N) : option N :=
  match find (fun r => (fst r <=? cp) && (cp <? fst r + snd r))%N decimal_runs with
  | Some r => Some ((cp - fst r) mod 10)%N
  | None => None
  end.

(** What a code point becomes on the way to ASCII. *)
Definition transform (cp : N) : option ascii :=
  if (cp <? 127)%N then Some (ascii_of_N cp)
  else if unicode_space cp then Some " "%char
  else match unicode_decimal cp with
       | Some d => Some (ascii_of_N (48 + d))
       | None => None
       end.

Definition continuation (b : N) : bool := ((0x80 <=? b) && (b <=? 0xBF))%N.

Definition emit (c : option ascii) (rest : option string) : option string :=
  match c, rest with
  | Some a, Some r => Some (String a r)
  | _, _ => None
  end.

(** Decodes the UTF-8 bytes of the text, code point by code point, and
    transforms each; [None] when a character has no ASCII counterpart (or
    the bytes are not UTF-8). *)
Fixpoint to_ascii (s : string) : option string :=
  match s with
  | EmptyString => Some EmptyString
  | String c0 r0 =>
      let b0 := N_of_ascii c0 in
      if (b0 <? 0x80)%N then emit (transform b0) (to_ascii r0)
      else
        match r0 with
        | EmptyString => None
        | String c1 r1 =>
            let b1 := N_of_ascii c1 in
            if negb (continuation b1) then None
            else if ((0xC2 <=? b0) && (b0 <=? 0xDF))%N
            then emit (transform ((b0 - 0xC0) * 64 + (b1 - 0x80))%N) (to_ascii r1)
            else
              match r1 with
              | EmptyString => None
              | String c2 r2 =>
                  let b2 := N_of_ascii c2 in
                  if negb (continuation b2) then None
                  else if ((0xE0 <=? b0) && (b0 <=? 0xEF))%N
                  then
                    let cp := ((b0 - 0xE0) * 4096 + (b1 - 0x80) * 64
                               + (b2 - 0x80))%N in
                    if ((cp <? 0x800) || ((0xD800 <=? cp) && (cp <=? 0xDFFF)))%N
                    then None
                    else emit (transform cp) (to_ascii r2)
                  else
                    match r2 with
                    | EmptyString => None
                    | String c3 r3 =>
                        let b3 := N_of_ascii c3 in
                        if negb (continuation b3) then None
                        else if ((0xF0 <=? b0) && (b0 <=? 0xF4))%N
                        then
                          let cp := ((b0 - 0xF0) * 262144 + (b1 - 0x80) * 4096
                                     + (b2 - 0x80) * 64 + (b3 - 0x80))%N in
                          if ((cp <? 0x10000) || (0x10FFFF <? cp))%N
                          then None
                          else emit (transform cp) (to_ascii r3)
                        else None
                    end
              end
        end
  end.

Definition isspace (c : ascii) : bool :=
  let n := nat_of_ascii c in
  Nat.eqb n 32 || (Nat.leb 9 n && Nat.leb n 13).

Definition digit_value (c : ascii) : option Z :=
  let n := nat_of_ascii c in
  if Nat.leb 48 n && Nat.leb n 57 then Some (Z.of_nat (n - 48)) else None.

Fixpoint skip_space (s : string) : string :=
  match s with
  | String c r => if isspace c then skip_space r else s
  | EmptyString => s
  end.

(** Reads the digit run; [prev_us] records that the last character read
    was an underscore.  Gives the value and the unread rest. *)
Fixpoint scan_digits (acc : Z) (prev_us : bool) (s : string)
  : option (Z * string) :=
  match s with
  | String c r =>
      match digit_value c with
      | Some d => scan_digits (10 * acc + d) false r
      | None =>
          if Ascii.eqb c "_"
          then if prev_us then None else scan_digits acc true r
          else if prev_us then None else Some (acc, s)
      end
  | EmptyString => if prev_us then None else Some (acc, s)
  end.

(** The reading of the ASCII text. *)
Definition parse_ascii (s : string) : option Z :=
  let s1 := skip_space s in
  let '(neg, s2) :=
    match s1 with
    | String "+" r => (false, r)
    | String "-" r => (true, r)
    | _ => (false, s1)
    end in
  match s2 with
  | String c _ =>
      match digit_value c with
      | None => None
      | Some _ =>
          match scan_digits 0 false s2 with
          | Some (v, rest) =>
              match skip_space rest with
              | EmptyString => Some (if neg then (- v)%Z else v)
              | _ => None
              end
          | None => None
          end
      end
  | EmptyString => None
  end.

(** The default of [sys.int_max_str_digits]. *)
Definition int_max_str_digits : Z := 4300.

(** The number of digits in the text: those of the literal, once the
    text is known to be one. *)
Fixpoint count_digits (s : string) : Z :=
  match s with
  | EmptyString => 0
  | String c r =>
      match digit_value c with
      | Some _ => 1 + count_digits r
      | None => count_digits r
      end
  end.

Definition parse_int (s : string) : option Z :=
  match to_ascii s with
  | None => None
  | Some a =>
      match parse_ascii a with
      | Some z =>
          if (int_max_str_digits <? count_digits a)%Z then None else Some z
      | None => None
      end
  end.

Definition int (s : string) : exn + Z :=
  match parse_int s with
  | Some z => inr z
  | None => inl (ValueError s)
  end.

(** ['{}'.format(n)] for an integer [n].  The handlers format a list's
    length and a page number within it, machine-sized integers. *)
Definition str_of_int (z : Z) : string :=
  NilZero.string_of_int (Z.to_int z).

End Py.

(** ** The relational store *)

(** A row of [binds(username, bind)]. *)
Record BindRow : Type := mkBind { username : string; bind : string }.

(** A row of [aliases(commandname, action, author, created)]. *)
Record AliasRow : Type := mkAlias {
  commandname : string;
  action : string;
  alias_author : string;
  created : string
}.

(** Tables are row lists in insertion order: no uniqueness constraint is
    assumed, so duplicates are representable. *)
Record DB : Type := mkDB {
  binds : list BindRow;
  aliases : list AliasRow
}.

Module Sql.

(** [SELECT ... FROM binds WHERE username=?] *)
Definition select_binds (user : string) (d : DB) : list BindRow :=
  filter (fun r => String.eqb (username r) user) (binds d).

(** [INSERT INTO binds VALUES (?, ?)] *)
Definition insert_bind (user b : string) (d : DB) : DB :=
  mkDB (binds d ++ [mkBind user b]) (aliases d).

(** [UPDATE binds SET bind=? WHERE username=?] *)
Definition update_bind (b user : string) (d : DB) : DB :=
  mkDB (map (fun r => if String.eqb (username r) user
                      then mkBind (username r) b else r) (binds d))
       (aliases d).

(** [ORDER BY commandname]: a stable insertion sort under the bytewise
    order of the text. *)
Fixpoint insert_sorted (r : AliasRow) (l : list AliasRow) : list AliasRow :=
  match l with
  | [] => [r]
  | x :: l' =>
      if String.leb (commandname r) (commandname x)
      then r :: l
      else x :: insert_sorted r l'
  end.

Definition order_by_commandname (l : list AliasRow) : list AliasRow :=
  fold_right insert_sorted [] l.

(** [SELECT * FROM aliases ORDER BY commandname] *)
Definition select_aliases (d : DB) : list AliasRow :=
  order_by_commandname (aliases d).

End Sql.

(** ** The world a handler runs in *)

(** [conn] is the database as the connection sees it, uncommitted writes
    included; [committed] is what [commit] last made durable.  [replies]
    and [played] log the calls of [data.reply] and of the audio output,
    oldest first. *)
Record World : Type := mkWorld {
  conn : DB;
  committed : DB;
  replies : list string;
  played : list string
}.

(** A computation returns a value or raises, and gives the world it
    leaves behind in both cases. *)
Definition M (A : Type) : Type := World -> (Py.exn + A) * World.

Definition ret {A} (a : A) : M A := fun w => (inr a, w).

Definition raise {A} (e : Py.exn) : M A := fun w => (inl e, w).

Definition mbind {A B} (m : M A) (k : A -> M B) : M B :=
  fun w =>
    match m w with
    | (inr a, w') => k a w'
    | (inl e, w') => (inl e, w')
    end.

Declare Scope cmd_scope.
Delimit Scope cmd_scope with cmd.
Notation "x <- m ;; k" := (mbind m (fun x => k))
  (at level 100, m at next level, right associativity) : cmd_scope.
Notation "m ;; k" := (mbind m (fun _ => k))
  (at level 100, right associativity) : cmd_scope.
Open Scope cmd_scope.

Definition outcome {A} (r : (Py.exn + A) * World) : Py.exn + A := fst r.
Definition world_of {A} (r : (Py.exn + A) * World) : World := snd r.

(** Lifts a call that returns nothing and raises when it gives [Some e]. *)
Definition raising (r : option Py.exn) : M unit :=
  match r with
  | Some e => raise e
  | None => ret tt
  end.

(** [c.execute('SELECT ...')] followed by the fetch: the result rows. *)
Definition query {A} (q : DB -> list A) : M (list A) :=
  fun w => (inr (q (conn w)), w).

(** [c.execute] of an [INSERT] or [UPDATE]. *)
Definition exec (f : DB -> DB) : M unit :=
  fun w => (inr tt, mkWorld (f (conn w)) (committed w) (replies w) (played w)).

(** [data.db.conn.commit()] *)
Definition commit : M unit :=
  fun w => (inr tt, mkWorld (conn w) (conn w) (replies w) (played w)).

(** [data.reply(text)] *)
Definition reply (text : string) : M unit :=
  fun w => (inr tt, mkWorld (conn w) (committed w) (replies w ++ [text]) (played w)).

(** [cursor.fetchone()]: the first row of the result, or [None]. *)
Definition fetchone {A} (rows : list A) : option A := hd_error rows.

(** ** The collaborators in [data] *)

(** [data.util].  The sound utilities read the store and do not write it;
    [None] is a normal return, [Some e] the exception raised.  The value
    [resolve_sound_or_alias] returns is dropped by the caller and is not
    modelled.  [into_pages columns rows] gives the rendered pages. *)
Record Util : Type := mkUtil {
  resolve_sound_or_alias : DB -> string -> option Py.exn;
  play_sound_or_alias : DB -> string -> option Py.exn;
  into_pages : list string -> list AliasRow -> list string
}.

Record Data : Type := mkData {
  author : string;
  util : Util
}.

(** [data.util.play_sound_or_alias(x)]: the sound reaches the audio output
    when the call returns. *)
Definition play (data : Data) (x : string) : M unit :=
  fun w =>
    match play_sound_or_alias (util data) (conn w) x with
    | Some e => (inl e, w)
    | None => (inr tt, mkWorld (conn w) (committed w) (replies w) (played w ++ [x]))
    end.

(** [data.util.resolve_sound_or_alias(x)] *)
Definition resolve (data : Data) (x : string) : M unit :=
  fun w => raising (resolve_sound_or_alias (util data) (conn w) x) w.

(** ** [commands/bind.py] *)

Module Bind.

Definition usage : string := "bind [CODE|ALIAS]".

Definition execute (data : Data) (argv : list string) : M unit :=
  rows <- query (Sql.select_binds (author data)) ;;
  let results := fetchone rows in
  match argv with
  | [] =>
      match results with
      | None => raise (Py.Exception "No bind set! Usage: bind [CODE|ALIAS]")
      | Some r =>
          play data (bind r) ;;
          reply ("Playing bind: " ++ bind r)
      end
  | arg0 :: _ :: _ =>
      raise (Py.Exception "too many arguments. Usage: bind [CODE|ALIAS]")
  | [arg0] =>
      resolve data arg0 ;;
      rows <- query (Sql.select_binds (author data)) ;;
      match fetchone rows with
      | None => exec (Sql.insert_bind (author data) arg0)
      | Some _ => exec (Sql.update_bind arg0 (author data))
      end ;;
      commit ;;
      reply ("Set bind to " ++ arg0 ++ ".")
  end.

End Bind.

(** ** [commands/search.py] *)

Module Search.

Definition usage : string := "search <KEYWORD> [PAGE]".

Definition columns : list string := ["Alias"; "Action"; "Author"; "Created"].

(** The rows left by the filter of line 16. *)
Definition matching (kw : string) (rows : list AliasRow) : list AliasRow :=
  filter (fun t => Py.startswith kw (commandname t)) rows.

Definition execute (data : Data) (argv : list string) : M unit :=
  match argv with
  | [] => raise (Py.Exception "a keyword is required")
  | arg0 :: rest =>
      rows <- query Sql.select_aliases ;;
      let rows := matching arg0 rows in
      if Nat.ltb (length rows) 1
      then raise (Py.Exception ("couldn't find any aliases like '" ++ arg0 ++ "'"))
      else
        let pages := into_pages (util data) columns rows in
        page <- match rest with
                | arg1 :: _ =>
                    match Py.int arg1 with
                    | inl e => raise e
                    | inr n => ret (n - 1)%Z
                    end
                | [] => ret 0%Z
                end ;;
        if (page <? 0)%Z || (page >=? Z.of_nat (length pages))%Z
        then raise (Py.Exception "invalid page number")
        else
          reply ("Showing page " ++ Py.str_of_int (page + 1)
                 ++ " of " ++ Py.str_of_int (Z.of_nat (length pages))) ;;
          reply (nth (Z.to_nat page) pages "")
  end.

End Search.

(** ** Vocabulary of the statements *)

(** The order of two alias rows under [ORDER BY commandname]. *)
Definition by_commandname (a b : AliasRow) : Prop :=
  String.leb (commandname a) (commandname b) = true.

(** What the one-argument path of [bind] leaves in the connection when the
    token resolves: the upsert of lines 27-32. *)
Definition upsert (user b : string) (d : DB) : DB :=
  match fetchone (Sql.select_binds user d) with
  | None => Sql.insert_bind user b d
  | Some _ => Sql.update_bind b user d
  end.

(** The data-model invariant: at most one row per username. *)
Definition one_bind_per_user (d : DB) : Prop :=
  forall u, length (Sql.select_binds u d) <= 1.

(** Text whose characters are all below 127: it is its own ASCII form. *)
Definition plain (s : string) : Prop :=
  Forall (fun c => (N_of_ascii c < 127)%N) (list_ascii_of_string s).

(** The header reply of [search]: page [p] of [n]. *)
Definition showing (p n : Z) : string :=
  "Showing page " ++ Py.str_of_int p ++ " of " ++ Py.str_of_int n.

(** The world after [search] has shown 1-indexed page [p] of [pages]. *)
Definition shown (p : Z) (pages : list string) (w : World) : World :=
  mkWorld (conn w) (committed w)
          (replies w ++ [showing p (Z.of_nat (length pages));
                         nth (Z.to_nat (p - 1)) pages ""])
          (played w).

(** The world after a run of [bind] invocations, each with its own
    [data] and arguments; an invocation that raises leaves the world it
    reached, as the dispatcher goes on to the next message. *)
Fixpoint after_binds (calls : list (Data * list string)) (w : World) : World :=
  match calls with
  | [] => w
  | (data, argv) :: rest =>
      after_binds rest (world_of (Bind.execute data argv w))
  end.

(** ** A concrete setting, for evaluating the handlers *)

Module Demo.

(** Resolves every token but ["nosuchsound"]; pages hold two rows each
    and show the alias names. *)
Fixpoint pages_of (rows : list AliasRow) : list string :=
  match rows with
  | [] => []
  | [a] => [commandname a]
  | a :: b :: rest => (commandname a ++ " " ++ commandname b) :: pages_of rest
  end.

Definition sound (_ : DB) (x : string) : option Py.exn :=
  if String.eqb x "nosuchsound"
  then Some (Py.Exception ("Unknown sound or alias " ++ x))
  else None.

Definition util : Util := mkUtil sound sound (fun _ => pages_of).

Definition data : Data := mkData "bob" util.

Definition alias (name : string) : AliasRow :=
  mkAlias name "airhorn" "alice" "2020-05-01".

Definition db : DB :=
  mkDB [mkBind "alice" "wow"]
       [alias "world"; alias "help"; alias "hello"; alias "Hello"].

Definition world : World := mkWorld db db [] [].

(** Page arguments at the edges of what [int] converts. *)
Fixpoint zeros (n : nat) : string :=
  match n with
  | O => EmptyString
  | S k => String "0" (zeros k)
  end.

(** U+0661 ARABIC-INDIC DIGIT ONE, and U+00A0 NO-BREAK SPACE before "1". *)
Definition arabic_one : string :=
  String (ascii_of_N 0xD9) (String (ascii_of_N 0xA1) EmptyString).

Definition nbsp_one : string :=
  String (ascii_of_N 0xC2) (String (ascii_of_N 0xA0) "1").

End Demo.

(** * Properties *)

(** ** Text: prefixes and the bytewise order *)

Lemma startswith_prefix (p s : string) :
  Py.startswith p s = true <-> exists t, s = p ++ t.
Proof.
  revert s; induction p as [|a p IH]; intros s; simpl.
  - split; [intros _; now exists s | reflexivity].
  - destruct s as [|b s].
    + split; [discriminate | intros [t Ht]; discriminate].
    + rewrite andb_true_iff, Ascii.eqb_eq, IH. split.
      * intros [-> [t ->]]. now exists t.
      * intros [t Ht]. injection Ht as -> ->. split; [reflexivity | now exists t].
Qed.

Lemma startswith_refl (s : string) : Py.startswith s s = true.
Proof.
  apply startswith_prefix. exists "".
  induction s as [|a s IH]; simpl; [reflexivity | now rewrite <- IH].
Qed.

Lemma ascii_compare_refl (a : ascii) : Ascii.compare a a = Eq.
Proof. unfold Ascii.compare. apply N.compare_refl. Qed.

Lemma ascii_compare_lt_trans (a b c : ascii) :
  Ascii.compare a b = Lt -> Ascii.compare b c = Lt -> Ascii.compare a c = Lt.
Proof.
  unfold Ascii.compare. rewrite !N.compare_lt_iff. apply N.lt_trans.
Qed.

Lemma string_compare_trans (s1 s2 s3 : string) :
  String.compare s1 s2 <> Gt -> String.compare s2 s3 <> Gt ->
  String.compare s1 s3 <> Gt.
Proof.
  revert s2 s3; induction s1 as [|a s1 IH]; intros [|b s2] [|c s3]; simpl;
    try congruence.
  destruct (Ascii.compare a b) eqn:Eab; destruct (Ascii.compare b c) eqn:Ebc;
    try congruence.
  - apply Ascii.compare_eq_iff in Eab, Ebc; subst.
    rewrite ascii_compare_refl. apply IH.
  - apply Ascii.compare_eq_iff in Eab; subst. now rewrite Ebc.
  - apply Ascii.compare_eq_iff in Ebc; subst. now rewrite Eab.
  - now rewrite (ascii_compare_lt_trans _ _ _ Eab Ebc).
Qed.

Lemma string_leb_trans (s1 s2 s3 : string) :
  String.leb s1 s2 = true -> String.leb s2 s3 = true -> String.leb s1 s3 = true.
Proof.
  unfold String.leb. intros H12 H23.
  assert (String.compare s1 s3 <> Gt) as H.
  { apply (string_compare_trans s1 s2 s3).
    - destruct (String.compare s1 s2); congruence.
    - destruct (String.compare s2 s3); congruence. }
  destruct (String.compare s1 s3); congruence.
Qed.

(** [int] reads back what the formatting of an integer writes. *)
Lemma scan_digits_acc (d : Decimal.uint) (acc : positive) :
  Py.scan_digits (Z.pos acc) false (NilEmpty.string_of_uint d)
  = Some (Z.pos (Pos.of_uint_acc d acc), "").
Proof.
  revert acc; induction d; intros acc;
    cbn [NilEmpty.string_of_uint Py.scan_digits Pos.of_uint_acc];
    [reflexivity|..];
    match goal with
    | |- context [Py.digit_value ?c] =>
        let v := eval vm_compute in (Py.digit_value c) in
        change (Py.digit_value c) with v
    end;
    cbv beta iota; rewrite <- IHd; f_equal; lia.
Qed.

Lemma scan_digits_uint (d : Decimal.uint) :
  Py.scan_digits 0 false (NilEmpty.string_of_uint d)
  = Some (Z.of_N (Pos.of_uint d), "").
Proof.
  induction d; cbn [NilEmpty.string_of_uint Pos.of_uint Z.of_N];
    [reflexivity | exact IHd | ..];
    match goal with
    | |- _ = Some (Z.pos (Pos.of_uint_acc _ ?k), _) => exact (scan_digits_acc d k)
    end.
Qed.

Lemma parse_ascii_str_of_int (z : Z) : Py.parse_ascii (Py.str_of_int z) = Some z.
Proof.
  unfold Py.str_of_int. destruct z as [|p|p]; [reflexivity|..];
    cbn [Z.to_int NilZero.string_of_int];
    pose proof (Unsigned.to_uint_nonnil p) as Hnil;
    pose proof (scan_digits_uint (Pos.to_uint p)) as Hscan;
    rewrite Unsigned.of_to in Hscan;
    destruct (Pos.to_uint p); try congruence;
    cbn [NilZero.string_of_uint NilEmpty.string_of_uint] in *;
    unfold Py.parse_ascii; set (scan := Py.scan_digits) in *;
    simpl; simpl in Hscan; rewrite Hscan; reflexivity.
Qed.

Lemma to_ascii_plain (s : string) : plain s -> Py.to_ascii s = Some s.
Proof.
  unfold plain. induction s as [|c s IH]; intros H; [reflexivity|].
  simpl in H. inversion H as [|? ? Hc Hs]; subst.
  cbn [Py.to_ascii]. cbv zeta.
  assert ((N_of_ascii c <? 0x80)%N = true) as -> by (apply N.ltb_lt; lia).
  unfold Py.transform.
  assert ((N_of_ascii c <? 127)%N = true) as -> by (now apply N.ltb_lt).
  rewrite ascii_N_embedding, (IH Hs). reflexivity.
Qed.

Lemma plain_uint (d : Decimal.uint) : plain (NilEmpty.string_of_uint d).
Proof.
  unfold plain. induction d; simpl; constructor; try assumption;
    vm_compute; reflexivity.
Qed.

Lemma plain_str_of_int (z : Z) : plain (Py.str_of_int z).
Proof.
  unfold Py.str_of_int. destruct z as [|p|p]; cbn [Z.to_int NilZero.string_of_int].
  - unfold plain. simpl. repeat constructor.
  - pose proof (plain_uint (Pos.to_uint p)) as H.
    destruct (Pos.to_uint p); [|exact H ..]. unfold plain. simpl. repeat constructor.
  - pose proof (plain_uint (Pos.to_uint p)) as H.
    unfold plain. cbn [list_ascii_of_string].
    constructor; [vm_compute; reflexivity|].
    destruct (Pos.to_uint p); [|exact H ..]. simpl. repeat constructor.
Qed.

Lemma count_digits_length (s : string) :
  (0 <= Py.count_digits s <= Z.of_nat (String.length s))%Z.
Proof.
  induction s as [|c s IH]; simpl String.length; cbn [Py.count_digits]; [lia|].
  destruct (Py.digit_value c); lia.
Qed.

(** [int] reads back what the formatting of an integer writes, within
    the digit limit. *)
Lemma parse_int_str_of_int (z : Z) :
  (Z.of_nat (String.length (Py.str_of_int z)) <= Py.int_max_str_digits)%Z ->
  Py.parse_int (Py.str_of_int z) = Some z.
Proof.
  intros Hlen. unfold Py.parse_int.
  rewrite (to_ascii_plain _ (plain_str_of_int z)), parse_ascii_str_of_int.
  pose proof (count_digits_length (Py.str_of_int z)) as Hc.
  assert ((Py.int_max_str_digits <? Py.count_digits (Py.str_of_int z))%Z = false)
    as -> by (apply Z.ltb_ge; lia).
  reflexivity.
Qed.

(** [int] at its edges: digits and spaces beyond ASCII are read, a
    literal of 4300 digits is converted and one of 4301 digits is not. *)
Lemma parse_int_edges :
  Py.parse_int Demo.arabic_one = Some 1%Z /\
  Py.parse_int Demo.nbsp_one = Some 1%Z /\
  Py.parse_int (Demo.zeros 4299 ++ "1") = Some 1%Z /\
  Py.parse_int (Demo.zeros 4300 ++ "1") = None.
Proof. repeat split; vm_compute; reflexivity. Qed.

(** ** [ORDER BY commandname] *)

Lemma insert_sorted_perm (r : AliasRow) (l : list AliasRow) :
  Permutation (r :: l) (Sql.insert_sorted r l).
Proof.
  induction l as [|x l IH]; simpl; [reflexivity|].
  destruct (String.leb _ _); [reflexivity|].
  rewrite perm_swap. now constructor.
Qed.

Lemma order_by_perm (l : list AliasRow) :
  Permutation l (Sql.order_by_commandname l).
Proof.
  induction l as [|x l IH]; simpl; [constructor|].
  rewrite <- insert_sorted_perm. now constructor.
Qed.

Lemma insert_sorted_sorted (r : AliasRow) (l : list AliasRow) :
  StronglySorted by_commandname l ->
  StronglySorted by_commandname (Sql.insert_sorted r l).
Proof.
  induction 1 as [|x l Hs IH Hx]; simpl.
  - repeat constructor.
  - destruct (String.leb (commandname r) (commandname x)) eqn:E.
    + constructor; [now constructor|].
      constructor; [exact E|].
      eapply Forall_impl; [|exact Hx].
      intros y Hy. exact (string_leb_trans _ _ _ E Hy).
    + constructor; [exact IH|].
      rewrite <- (insert_sorted_perm r l). constructor; [|exact Hx].
      destruct (String.leb_total (commandname r) (commandname x)) as [H|H];
        [congruence | exact H].
Qed.

Lemma order_by_sorted (l : list AliasRow) :
  StronglySorted by_commandname (Sql.order_by_commandname l).
Proof.
  induction l as [|x l IH]; simpl; [constructor|].
  now apply insert_sorted_sorted.
Qed.

Lemma filter_sorted (f : AliasRow -> bool) (l : list AliasRow) :
  StronglySorted by_commandname l ->
  StronglySorted by_commandname (filter f l).
Proof.
  induction 1 as [|x l Hs IH Hx]; simpl; [constructor|].
  destruct (f x); [|exact IH].
  constructor; [exact IH|].
  rewrite Forall_forall in *. intros y Hy.
  apply Hx. now apply filter_In in Hy.
Qed.

Lemma filter_perm (f : AliasRow -> bool) (l l' : list AliasRow) :
  Permutation l l' -> Permutation (filter f l) (filter f l').
Proof.
  induction 1; simpl.
  - constructor.
  - destruct (f x); [now constructor | assumption].
  - destruct (f x), (f y); try reflexivity. apply perm_swap.
  - etransitivity; eassumption.
Qed.

(** ** The [binds] table under the three statements *)

Section Binds.

Variable user : string.

Lemma select_binds_username (d : DB) (r : BindRow) :
  In r (Sql.select_binds user d) -> username r = user.
Proof.
  unfold Sql.select_binds. rewrite filter_In.
  intros [_ H]. now apply String.eqb_eq.
Qed.

Lemma select_binds_none (d : DB) :
  (forall r, In r (binds d) -> username r <> user) ->
  Sql.select_binds user d = [].
Proof.
  unfold Sql.select_binds. intros H.
  induction (binds d) as [|x l IH]; simpl; [reflexivity|].
  destruct (String.eqb (username x) user) eqn:E.
  - apply String.eqb_eq in E. exfalso. apply (H x); [now left | exact E].
  - apply IH. intros r Hr. apply H. now right.
Qed.

Lemma select_insert (b : string) (d : DB) :
  Sql.select_binds user (Sql.insert_bind user b d)
  = (Sql.select_binds user d ++ [mkBind user b])%list.
Proof.
  unfold Sql.select_binds, Sql.insert_bind. simpl.
  rewrite filter_app. simpl. now rewrite String.eqb_refl.
Qed.

Lemma select_update (b : string) (d : DB) :
  Sql.select_binds user (Sql.update_bind b user d)
  = map (fun r => mkBind (username r) b) (Sql.select_binds user d).
Proof.
  unfold Sql.select_binds, Sql.update_bind. simpl.
  induction (binds d) as [|x l IH]; simpl; [reflexivity|].
  destruct (String.eqb (username x) user) eqn:E; simpl; rewrite E, IH;
    reflexivity.
Qed.

Lemma update_length (b : string) (d : DB) :
  length (binds (Sql.update_bind b user d)) = length (binds d).
Proof. unfold Sql.update_bind. simpl. apply length_map. Qed.

End Binds.

Lemma bind_set_ok (data : Data) (T : string) (w : World) :
  resolve_sound_or_alias (util data) (conn w) T = None ->
  Bind.execute data [T] w
  = (inr tt,
     mkWorld (upsert (author data) T (conn w)) (upsert (author data) T (conn w))
             (replies w ++ ["Set bind to " ++ T ++ "."]) (played w)).
Proof.
  intros Hres. unfold Bind.execute, mbind, query, resolve, upsert. simpl.
  rewrite Hres. simpl.
  destruct (fetchone (Sql.select_binds (author data) (conn w))); reflexivity.
Qed.

Lemma select_upsert (user b : string) (d : DB) :
  Sql.select_binds user (upsert user b d)
  = match Sql.select_binds user d with
    | [] => [mkBind user b]
    | rows => map (fun r => mkBind (username r) b) rows
    end.
Proof.
  unfold upsert, fetchone.
  destruct (Sql.select_binds user d) as [|r rows] eqn:E; simpl.
  - now rewrite select_insert, E.
  - now rewrite select_update, E.
Qed.

Lemma select_other_upsert (user u b : string) (d : DB) :
  u <> user ->
  Sql.select_binds u (upsert user b d) = Sql.select_binds u d.
Proof.
  intros Hne. unfold upsert.
  destruct (fetchone (Sql.select_binds user d));
    unfold Sql.select_binds, Sql.insert_bind, Sql.update_bind; simpl.
  - induction (binds d) as [|x l IH]; simpl; [reflexivity|].
    destruct (String.eqb (username x) user) eqn:E; simpl.
    + apply String.eqb_eq in E.
      assert (String.eqb (username x) u = false) as ->.
      { apply String.eqb_neq. congruence. }
      exact IH.
    + rewrite IH. reflexivity.
  - rewrite filter_app. simpl.
    assert (String.eqb user u = false) as ->.
    { apply String.eqb_neq. congruence. }
    apply app_nil_r.
Qed.

Lemma upsert_invariant (user b : string) (d : DB) :
  one_bind_per_user d -> one_bind_per_user (upsert user b d).
Proof.
  intros Hinv u. destruct (String.eqb_spec u user) as [->|Hne].
  - rewrite select_upsert. specialize (Hinv user).
    destruct (Sql.select_binds user d); simpl in *; [lia|].
    now rewrite length_map.
  - now rewrite select_other_upsert.
Qed.

(** [bind] keeps the invariant of the data model, on every path. *)
Lemma bind_keeps_invariant (data : Data) (argv : list string) (w : World) :
  one_bind_per_user (conn w) ->
  one_bind_per_user (conn (world_of (Bind.execute data argv w))).
Proof.
  intros Hinv. destruct argv as [|T [|T' rest]].
  - unfold Bind.execute, mbind, query, play, reply, world_of. simpl.
    destruct (fetchone _) as [r|]; simpl; [|exact Hinv].
    destruct (play_sound_or_alias _ _ _); exact Hinv.
  - destruct (resolve_sound_or_alias (util data) (conn w) T) as [e|] eqn:Hres.
    + unfold Bind.execute, mbind, query, resolve, world_of. simpl.
      rewrite Hres. exact Hinv.
    + rewrite (bind_set_ok data T w Hres). now apply upsert_invariant.
  - exact Hinv.
Qed.

(** ** [bind] *)

(** C8: with two or more arguments [bind] raises the "too many arguments"
    error, whatever the store holds, and leaves the world (the store
    included) as it was. *)
Theorem bind_too_many_arguments (data : Data) (argv : list string) (w : World) :
  2 <= length argv ->
  Bind.execute data argv w
  = (inl (Py.Exception "too many arguments. Usage: bind [CODE|ALIAS]"), w).
Proof.
  destruct argv as [|a [|b rest]]; simpl; try lia.
  intros _. reflexivity.
Qed.

Lemma bind_too_many_arguments_witness :
  2 <= length ["airhorn"; "wow"] /\
  Bind.execute Demo.data ["airhorn"; "wow"] Demo.world
  = (inl (Py.Exception "too many arguments. Usage: bind [CODE|ALIAS]"), Demo.world).
Proof.
  assert (2 <= length ["airhorn"; "wow"]) as H by (simpl; lia).
  split; [exact H|].
  exact (bind_too_many_arguments Demo.data ["airhorn"; "wow"] Demo.world H).
Defined.

(** C6: for a user with no row in [binds], [bind] without arguments raises
    the "No bind set" error; nothing is played and nothing is replied (the
    world is left as it was). *)
Theorem bind_replay_no_bind (data : Data) (w : World) :
  (forall r, In r (binds (conn w)) -> username r <> author data) ->
  Bind.execute data [] w
  = (inl (Py.Exception "No bind set! Usage: bind [CODE|ALIAS]"), w).
Proof.
  intros Hnone. unfold Bind.execute, mbind, query. simpl.
  now rewrite (select_binds_none _ _ Hnone).
Qed.

Lemma bind_replay_no_bind_witness :
  (forall r, In r (binds (conn Demo.world)) -> username r <> author Demo.data) /\
  Bind.execute Demo.data [] Demo.world
  = (inl (Py.Exception "No bind set! Usage: bind [CODE|ALIAS]"), Demo.world).
Proof.
  assert (forall r, In r (binds (conn Demo.world)) ->
                    username r <> author Demo.data) as H.
  { simpl. intros r [<-|[]]. simpl. discriminate. }
  split; [exact H|].
  exact (bind_replay_no_bind Demo.data Demo.world H).
Defined.

(** C9: [bind] without arguments never writes: the connection's view of
    the store and the committed store are the same before and after,
    whether the call replays the bind or raises. *)
Theorem bind_replay_read_only (data : Data) (w : World) :
  conn (world_of (Bind.execute data [] w)) = conn w /\
  committed (world_of (Bind.execute data [] w)) = committed w.
Proof.
  unfold Bind.execute, mbind, query, play, reply, world_of. simpl.
  destruct (fetchone (Sql.select_binds (author data) (conn w))) as [r|]; simpl.
  - destruct (play_sound_or_alias (util data) (conn w) (bind r)); simpl; auto.
  - auto.
Qed.

(** C3: when resolving the single argument raises, [bind] raises that
    exception and the world is left as it was: no insert, update or
    commit has happened, and nothing is replied. *)
Theorem bind_invalid_sound_no_write
  (data : Data) (arg : string) (e : Py.exn) (w : World) :
  resolve_sound_or_alias (util data) (conn w) arg = Some e ->
  Bind.execute data [arg] w = (inl e, w).
Proof.
  intros Hres. unfold Bind.execute, mbind, query, resolve. simpl.
  now rewrite Hres.
Qed.

Lemma bind_invalid_sound_no_write_witness :
  resolve_sound_or_alias (util Demo.data) (conn Demo.world) "nosuchsound"
  = Some (Py.Exception "Unknown sound or alias nosuchsound") /\
  Bind.execute Demo.data ["nosuchsound"] Demo.world
  = (inl (Py.Exception "Unknown sound or alias nosuchsound"), Demo.world).
Proof.
  assert (resolve_sound_or_alias (util Demo.data) (conn Demo.world) "nosuchsound"
          = Some (Py.Exception "Unknown sound or alias nosuchsound")) as H
    by reflexivity.
  split; [exact H|].
  exact (bind_invalid_sound_no_write Demo.data "nosuchsound" _ Demo.world H).
Defined.

(** C1: on a store with at most one row for the user, [bind T1] followed
    by [bind T2], both tokens resolving, leaves exactly one row for that
    user, whose value is [T2]; the second call updates in place (the table
    does not grow) and the result is committed. *)
Theorem bind_rebind_single_record (data : Data) (T1 T2 : string) (w : World) :
  let r1 := Bind.execute data [T1] w in
  let r2 := Bind.execute data [T2] (world_of r1) in
  length (Sql.select_binds (author data) (conn w)) <= 1 ->
  resolve_sound_or_alias (util data) (conn w) T1 = None ->
  resolve_sound_or_alias (util data) (conn (world_of r1)) T2 = None ->
  outcome r1 = inr tt /\ outcome r2 = inr tt /\
  Sql.select_binds (author data) (conn (world_of r2)) = [mkBind (author data) T2] /\
  length (binds (conn (world_of r2))) = length (binds (conn (world_of r1))) /\
  committed (world_of r2) = conn (world_of r2).
Proof.
  intros r1 r2 Hone Hres1. subst r2 r1.
  rewrite (bind_set_ok data T1 w Hres1).
  unfold world_of, outcome; cbn [fst snd].
  match goal with |- context [conn ?x] => set (w1 := x) end.
  intros Hres2. rewrite (bind_set_ok data T2 w1 Hres2).
  subst w1; simpl.
  repeat split.
  - rewrite !select_upsert.
    destruct (Sql.select_binds (author data) (conn w)) as [|r [|r' rows]] eqn:E;
      simpl in *; try lia; try reflexivity.
    rewrite (select_binds_username (author data) (conn w) r); [reflexivity|].
    rewrite E. now left.
  - unfold upsert at 1. rewrite select_upsert.
    destruct (Sql.select_binds (author data) (conn w)) as [|r rows]; simpl;
      apply update_length.
Qed.

Lemma bind_rebind_single_record_witness :
  length (Sql.select_binds (author Demo.data) (conn Demo.world)) <= 1 /\
  resolve_sound_or_alias (util Demo.data) (conn Demo.world) "airhorn" = None /\
  resolve_sound_or_alias (util Demo.data)
    (conn (world_of (Bind.execute Demo.data ["airhorn"] Demo.world))) "wow"
  = None /\
  Sql.select_binds (author Demo.data)
    (conn (world_of (Bind.execute Demo.data ["wow"]
                       (world_of (Bind.execute Demo.data ["airhorn"] Demo.world)))))
  = [mkBind "bob" "wow"].
Proof.
  assert (length (Sql.select_binds (author Demo.data) (conn Demo.world)) <= 1)
    as H by (simpl; lia).
  split; [exact H|]. split; [reflexivity|]. split; [reflexivity|].
  exact (proj1 (proj2 (proj2 (bind_rebind_single_record
           Demo.data "airhorn" "wow" Demo.world H eq_refl eq_refl)))).
Defined.

(** C2: for a token [T] that the sound utilities accept, [bind T] followed
    by [bind] without arguments makes the second call play [T] and reply
    "Playing bind: T", from any store. *)
Theorem bind_then_replay (data : Data) (T : string) (w : World) :
  let r1 := Bind.execute data [T] w in
  let r2 := Bind.execute data [] (world_of r1) in
  resolve_sound_or_alias (util data) (conn w) T = None ->
  play_sound_or_alias (util data) (conn (world_of r1)) T = None ->
  outcome r1 = inr tt /\ outcome r2 = inr tt /\
  replies (world_of r2) = (replies (world_of r1) ++ [("Playing bind: " ++ T)%string])%list /\
  played (world_of r2) = (played (world_of r1) ++ [T])%list.
Proof.
  intros r1 r2 Hres. subst r2 r1.
  rewrite (bind_set_ok data T w Hres).
  unfold world_of, outcome; simpl. intros Hplay.
  unfold Bind.execute, mbind, query, play, reply; simpl.
  rewrite select_upsert.
  destruct (Sql.select_binds (author data) (conn w)) as [|r rows]; simpl;
    rewrite Hplay; simpl; auto.
Qed.

Lemma bind_then_replay_witness :
  resolve_sound_or_alias (util Demo.data) (conn Demo.world) "airhorn" = None /\
  play_sound_or_alias (util Demo.data)
    (conn (world_of (Bind.execute Demo.data ["airhorn"] Demo.world))) "airhorn"
  = None /\
  replies (world_of (Bind.execute Demo.data []
                       (world_of (Bind.execute Demo.data ["airhorn"] Demo.world))))
  = ["Set bind to airhorn."; "Playing bind: airhorn"].
Proof.
  split; [reflexivity|]. split; [reflexivity|].
  exact (proj1 (proj2 (proj2 (bind_then_replay
           Demo.data "airhorn" Demo.world eq_refl eq_refl)))).
Defined.

(** ** [search] *)

Lemma matching_in (kw : string) (w : World) (r : AliasRow) :
  In r (Search.matching kw (Sql.select_aliases (conn w)))
  <-> In r (aliases (conn w)) /\ exists t, commandname r = kw ++ t.
Proof.
  unfold Search.matching, Sql.select_aliases.
  rewrite filter_In, startswith_prefix.
  split; intros [Hin Hp]; split; try exact Hp.
  - eapply Permutation_in; [symmetry; apply order_by_perm | exact Hin].
  - eapply Permutation_in; [apply order_by_perm | exact Hin].
Qed.

Lemma matching_none (kw : string) (w : World) :
  (forall r, In r (aliases (conn w)) -> forall t, commandname r <> kw ++ t) ->
  Search.matching kw (Sql.select_aliases (conn w)) = [].
Proof.
  intros Hnone.
  destruct (Search.matching kw (Sql.select_aliases (conn w))) as [|r rs] eqn:E;
    [reflexivity|].
  assert (In r (Search.matching kw (Sql.select_aliases (conn w)))) as Hr
    by (rewrite E; now left).
  apply matching_in in Hr. destruct Hr as [Hin [t Ht]].
  now destruct (Hnone r Hin t).
Qed.

(** The handler once the filter has left some row: the page argument is
    converted, checked against the page count, and the page is shown. *)
Lemma search_found (data : Data) (kw : string) (w : World) (rest : list string) :
  let rows := Search.matching kw (Sql.select_aliases (conn w)) in
  let pages := into_pages (util data) Search.columns rows in
  rows <> [] ->
  Search.execute data (kw :: rest) w
  = match match rest with
          | arg1 :: _ => Py.int arg1
          | [] => inr 1%Z
          end with
    | inl e => (inl e, w)
    | inr p =>
        if (p - 1 <? 0)%Z || (p - 1 >=? Z.of_nat (length pages))%Z
        then (inl (Py.Exception "invalid page number"), w)
        else (inr tt, shown p pages w)
    end.
Proof.
  intros rows pages Hrows. unfold Search.execute, mbind, query. cbn [fst snd].
  fold rows. fold pages. clearbody pages.
  destruct rows as [|r rs]; [congruence|].
  cbn [length Nat.ltb Nat.leb].
  assert (forall p : Z,
    (if (p - 1 <? 0)%Z || (p - 1 >=? Z.of_nat (length pages))%Z
     then raise (Py.Exception "invalid page number")
     else (reply ("Showing page " ++ Py.str_of_int (p - 1 + 1) ++ " of "
                  ++ Py.str_of_int (Z.of_nat (length pages)));;
           reply (nth (Z.to_nat (p - 1)) pages ""))) w
    = if (p - 1 <? 0)%Z || (p - 1 >=? Z.of_nat (length pages))%Z
      then (inl (Py.Exception "invalid page number"), w)
      else (inr tt, shown p pages w)) as Hshow.
  { intros p. destruct (_ || _); [reflexivity|].
    unfold mbind, reply, shown, showing. cbn [fst snd conn committed replies played].
    rewrite Z.sub_add, <- app_assoc. reflexivity. }
  destruct rest as [|arg1 more].
  - exact (Hshow 1%Z).
  - destruct (Py.int arg1) as [e|n]; [reflexivity|].
    exact (Hshow n).
Qed.

(** The page argument goes through [int] as it is: a page number written
    in other digits or after a no-break space selects its page, and one of
    too many digits raises the [ValueError] of the conversion. *)
Lemma search_page_edges :
  replies (world_of (Search.execute Demo.data [""; Demo.arabic_one] Demo.world))
  = ["Showing page 1 of 2"; "Hello hello"] /\
  replies (world_of (Search.execute Demo.data [""; Demo.nbsp_one] Demo.world))
  = ["Showing page 1 of 2"; "Hello hello"] /\
  Search.execute Demo.data [""; Demo.zeros 4300 ++ "1"] Demo.world
  = (inl (Py.ValueError (Demo.zeros 4300 ++ "1")), Demo.world).
Proof. repeat split; vm_compute; reflexivity. Qed.

(** C7: when no alias name starts with the keyword, [search] raises
    "couldn't find any aliases like '<keyword>'" and the world is left as
    it was (no reply), whatever follows the keyword. *)
Theorem search_no_match (data : Data) (kw : string) (rest : list string) (w : World) :
  (forall r, In r (aliases (conn w)) -> forall t, commandname r <> kw ++ t) ->
  Search.execute data (kw :: rest) w
  = (inl (Py.Exception ("couldn't find any aliases like '" ++ kw ++ "'")), w).
Proof.
  intros Hnone. unfold Search.execute, mbind, query. cbn [fst snd].
  now rewrite (matching_none kw w Hnone).
Qed.

Lemma search_no_match_witness :
  (forall r, In r (aliases (conn Demo.world)) ->
             forall t, commandname r <> "zip" ++ t) /\
  Search.execute Demo.data ["zip"] Demo.world
  = (inl (Py.Exception "couldn't find any aliases like 'zip'"), Demo.world).
Proof.
  assert (forall r, In r (aliases (conn Demo.world)) ->
                    forall t, commandname r <> "zip" ++ t) as H.
  { simpl. intros r [<-|[<-|[<-|[<-|[]]]]] t; simpl; discriminate. }
  split; [exact H|].
  exact (search_no_match Demo.data "zip" [] Demo.world H).
Defined.

(** C5: when some alias matches, [search] shows page 1 if no page is
    given (the paginator having produced a page); with a page argument
    that [int] reads as the integer [p], it shows page [p] when
    [1 <= p <= pageCount] and raises "invalid page number", replying
    nothing, when [p] is outside that range.  In particular the decimal
    text of a page number in range, of no more digits than [int]
    converts, selects that page. *)
Theorem search_page_selection (data : Data) (kw : string) (w : World) :
  let rows := Search.matching kw (Sql.select_aliases (conn w)) in
  let pages := into_pages (util data) Search.columns rows in
  let count := Z.of_nat (length pages) in
  rows <> [] ->
  (pages <> [] ->
   Search.execute data [kw] w = (inr tt, shown 1 pages w)) /\
  (forall arg1 more p, Py.int arg1 = inr p -> (1 <= p <= count)%Z ->
   Search.execute data (kw :: arg1 :: more) w = (inr tt, shown p pages w)) /\
  (forall arg1 more p, Py.int arg1 = inr p -> (p < 1 \/ count < p)%Z ->
   Search.execute data (kw :: arg1 :: more) w
   = (inl (Py.Exception "invalid page number"), w)) /\
  (forall p, (1 <= p <= count)%Z ->
   (Z.of_nat (String.length (Py.str_of_int p)) <= Py.int_max_str_digits)%Z ->
   Search.execute data [kw; Py.str_of_int p] w = (inr tt, shown p pages w)).
Proof.
  intros rows pages count Hrows.
  assert (forall arg1 more p, Py.int arg1 = inr p -> (1 <= p <= count)%Z ->
            Search.execute data (kw :: arg1 :: more) w
            = (inr tt, shown p pages w)) as Hin;
    [|split; [|split; [exact Hin|split]]].
  - intros arg1 more p Hint Hp.
    rewrite (search_found data kw w (arg1 :: more) Hrows), Hint.
    fold rows pages count.
    assert ((p - 1 <? 0)%Z = false) as -> by (apply Z.ltb_ge; lia).
    assert ((p - 1 >=? count)%Z = false) as ->
      by (rewrite Z.geb_leb; apply Z.leb_gt; lia).
    reflexivity.
  - intros Hpages. rewrite (search_found data kw w [] Hrows). fold rows pages.
    destruct pages as [|pg pgs]; [congruence|]. reflexivity.
  - intros arg1 more p Hint Hp.
    rewrite (search_found data kw w (arg1 :: more) Hrows), Hint.
    fold rows pages count.
    assert ((p - 1 <? 0)%Z || (p - 1 >=? count)%Z = true) as ->; [|reflexivity].
    apply orb_true_iff. rewrite Z.geb_leb, Z.ltb_lt, Z.leb_le. lia.
  - intros p Hp Hlen. apply Hin; [|exact Hp].
    unfold Py.int. now rewrite (parse_int_str_of_int p Hlen).
Qed.

Lemma search_page_selection_witness :
  Search.matching "hel" (Sql.select_aliases (conn Demo.world)) <> [] /\
  Search.execute Demo.data ["hel"] Demo.world
  = (inr tt, mkWorld Demo.db Demo.db ["Showing page 1 of 1"; "hello help"] []) /\
  Search.execute Demo.data [""; "2"] Demo.world
  = (inr tt, mkWorld Demo.db Demo.db ["Showing page 2 of 2"; "help world"] []) /\
  Search.execute Demo.data ["hel"; "2"] Demo.world
  = (inl (Py.Exception "invalid page number"), Demo.world).
Proof.
  assert (Search.matching "hel" (Sql.select_aliases (conn Demo.world)) <> [])
    as H1 by (vm_compute; discriminate).
  assert (Search.matching "" (Sql.select_aliases (conn Demo.world)) <> [])
    as H2 by (vm_compute; discriminate).
  split; [exact H1|]. split; [|split].
  - apply (proj1 (search_page_selection Demo.data "hel" Demo.world H1)).
    vm_compute; discriminate.
  - apply (proj1 (proj2 (search_page_selection Demo.data "" Demo.world H2))
             "2" [] 2%Z); [reflexivity | vm_compute; split; discriminate].
  - apply (proj1 (proj2 (proj2 (search_page_selection Demo.data "hel" Demo.world H1)))
             "2" [] 2%Z); [reflexivity | right; reflexivity].
Defined.

(** C10: when some alias matches and the page argument is text that
    [int] rejects, [search] raises the [ValueError] of the conversion
    before any reply; that error is not "invalid page number". *)
Theorem search_page_not_integer
  (data : Data) (kw arg1 : string) (more : list string) (w : World) :
  Search.matching kw (Sql.select_aliases (conn w)) <> [] ->
  Py.parse_int arg1 = None ->
  Search.execute data (kw :: arg1 :: more) w = (inl (Py.ValueError arg1), w) /\
  Py.ValueError arg1 <> Py.Exception "invalid page number".
Proof.
  intros Hrows Hint. split; [|discriminate].
  rewrite (search_found data kw w (arg1 :: more) Hrows).
  unfold Py.int. now rewrite Hint.
Qed.

Lemma search_page_not_integer_witness :
  Search.matching "hel" (Sql.select_aliases (conn Demo.world)) <> [] /\
  Py.parse_int "abc" = None /\
  Search.execute Demo.data ["hel"; "abc"] Demo.world
  = (inl (Py.ValueError "abc"), Demo.world).
Proof.
  assert (Search.matching "hel" (Sql.select_aliases (conn Demo.world)) <> [])
    as H1 by (vm_compute; discriminate).
  split; [exact H1|]. split; [reflexivity|].
  exact (proj1 (search_page_not_integer Demo.data "hel" "abc" [] Demo.world
                  H1 eq_refl)).
Defined.

(** The three aliases of the example, stored in any order. *)
Lemma search_hel_example (l : list AliasRow) :
  Permutation (map commandname l) ["hello"; "help"; "world"] ->
  map commandname (Search.matching "hel" (Sql.order_by_commandname l))
  = ["hello"; "help"].
Proof.
  intros Hperm.
  pose proof (Permutation_length Hperm) as Hlen.
  rewrite length_map in Hlen.
  destruct l as [|[na aa ua ca] [|[nb ab ub cb] [|[nc ac uc cc] [|? ?]]]];
    try discriminate Hlen.
  clear Hlen. cbn [map commandname] in Hperm.
  assert (In "hello" [na; nb; nc]) as H1
    by (eapply Permutation_in; [symmetry; exact Hperm | simpl; auto]).
  assert (In "help" [na; nb; nc]) as H2
    by (eapply Permutation_in; [symmetry; exact Hperm | simpl; auto]).
  assert (In "world" [na; nb; nc]) as H3
    by (eapply Permutation_in; [symmetry; exact Hperm | simpl; auto]).
  clear Hperm. simpl in H1, H2, H3.
  destruct H1 as [H1|[H1|[H1|[]]]]; destruct H2 as [H2|[H2|[H2|[]]]];
    destruct H3 as [H3|[H3|[H3|[]]]]; subst; try discriminate; reflexivity.
Qed.

(** C4: the rows [search] paginates are the alias rows whose name is the
    keyword followed by some text (an exact, case-sensitive prefix), each
    as often as the table holds it, in ascending bytewise order of the
    name; the first page shown is made from them.  For the aliases
    "hello", "help", "world", stored in any order, and the keyword "hel"
    the names of these rows are "hello", "help", in that order. *)
Theorem search_filter_sorted (data : Data) (kw : string) (w : World) :
  let rows := Search.matching kw (Sql.select_aliases (conn w)) in
  (forall r, In r rows <->
             In r (aliases (conn w)) /\ exists t, commandname r = kw ++ t) /\
  Permutation rows
    (filter (fun r => Py.startswith kw (commandname r)) (aliases (conn w))) /\
  StronglySorted by_commandname rows /\
  (rows <> [] -> into_pages (util data) Search.columns rows <> [] ->
   Search.execute data [kw] w
   = (inr tt, shown 1 (into_pages (util data) Search.columns rows) w)) /\
  (Permutation (map commandname (aliases (conn w))) ["hello"; "help"; "world"] ->
   map commandname (Search.matching "hel" (Sql.select_aliases (conn w)))
   = ["hello"; "help"]).
Proof.
  intros rows. split; [|split; [|split; [|split]]].
  - apply matching_in.
  - unfold rows, Search.matching, Sql.select_aliases.
    apply filter_perm. symmetry. apply order_by_perm.
  - apply filter_sorted, order_by_sorted.
  - intros Hrows Hpages. rewrite (search_found data kw w [] Hrows).
    fold rows. destruct (into_pages (util data) Search.columns rows);
      [congruence | reflexivity].
  - apply search_hel_example.
Qed.

Lemma search_filter_sorted_witness :
  Permutation (map commandname [Demo.alias "world"; Demo.alias "hello"; Demo.alias "help"])
              ["hello"; "help"; "world"] /\
  map commandname
    (Search.matching "hel"
       (Sql.select_aliases
          (mkDB [] [Demo.alias "world"; Demo.alias "hello"; Demo.alias "help"])))
  = ["hello"; "help"].
Proof.
  assert (Permutation
            (map commandname
               [Demo.alias "world"; Demo.alias "hello"; Demo.alias "help"])
            ["hello"; "help"; "world"]) as H.
  { simpl. apply Permutation_sym, Permutation_cons_app with (l1 := ["world"]) (l2 := ["help"]).
     apply Permutation_cons_app with (l1 := ["world"]) (l2 := []). reflexivity. }
  split; [exact H|].
  apply (search_filter_sorted Demo.data "hel"
           (mkWorld (mkDB [] [Demo.alias "world"; Demo.alias "hello"; Demo.alias "help"])
                    (mkDB [] []) [] [])).
  exact H.
Defined.

(** * Further properties of the handlers *)

(** ** Every path of [bind] *)

(** [bind] in closed form: what each of its five paths returns and
    leaves. *)
Lemma bind_paths (data : Data) (argv : list string) (w : World) :
  Bind.execute data argv w
  = match argv with
    | [] =>
        match Sql.select_binds (author data) (conn w) with
        | [] => (inl (Py.Exception "No bind set! Usage: bind [CODE|ALIAS]"), w)
        | r :: _ =>
            match play_sound_or_alias (util data) (conn w) (bind r) with
            | Some e => (inl e, w)
            | None =>
                (inr tt,
                 mkWorld (conn w) (committed w)
                         (replies w ++ ["Playing bind: " ++ bind r])
                         (played w ++ [bind r]))
            end
        end
    | [T] =>
        match resolve_sound_or_alias (util data) (conn w) T with
        | Some e => (inl e, w)
        | None =>
            (inr tt,
             mkWorld (upsert (author data) T (conn w))
                     (upsert (author data) T (conn w))
                     (replies w ++ ["Set bind to " ++ T ++ "."]) (played w))
        end
    | _ :: _ :: _ =>
        (inl (Py.Exception "too many arguments. Usage: bind [CODE|ALIAS]"), w)
    end.
Proof.
  destruct argv as [|T [|T' rest]]; [| |reflexivity].
  - unfold Bind.execute, mbind, query, play, reply, fetchone. simpl.
    destruct (Sql.select_binds (author data) (conn w)) as [|r rows]; simpl;
      [reflexivity|].
    destruct (play_sound_or_alias (util data) (conn w) (bind r)); reflexivity.
  - destruct (resolve_sound_or_alias (util data) (conn w) T) as [e|] eqn:Hres.
    + unfold Bind.execute, mbind, query, resolve. simpl. now rewrite Hres.
    + exact (bind_set_ok data T w Hres).
Qed.

Lemma upsert_aliases (user b : string) (d : DB) :
  aliases (upsert user b d) = aliases d.
Proof.
  unfold upsert. destruct (fetchone _); reflexivity.
Qed.

Lemma update_bind_none (user b : string) (l : list BindRow) :
  filter (fun r => String.eqb (username r) user) l = [] ->
  map (fun r => if String.eqb (username r) user
                then mkBind (username r) b else r) l = l.
Proof.
  induction l as [|x l IH]; simpl; [reflexivity|].
  destruct (String.eqb (username x) user); [discriminate|].
  intros H. now rewrite IH.
Qed.

Lemma upsert_idempotent (user b : string) (d : DB) :
  upsert user b (upsert user b d) = upsert user b d.
Proof.
  pose proof (select_upsert user b d) as Hsel.
  unfold upsert at 1. unfold fetchone. rewrite Hsel.
  assert (Sql.update_bind b user (upsert user b d) = upsert user b d) as Hupd.
  { unfold upsert, fetchone, Sql.select_binds.
    destruct (filter _ (binds d)) as [|r rows] eqn:E; simpl;
      unfold Sql.update_bind, Sql.insert_bind; simpl; f_equal.
    - rewrite map_app. simpl. rewrite String.eqb_refl.
      now rewrite (update_bind_none user b (binds d) E).
    - rewrite map_map. apply map_ext. intros x.
      destruct (String.eqb (username x) user) eqn:Ex; simpl; now rewrite Ex. }
  destruct (Sql.select_binds user d) as [|r rows]; simpl; exact Hupd.
Qed.

(** X1: [bind] is all or nothing.  Whenever it raises, on any of its
    paths, the world is exactly as before the call: nothing written or
    committed, nothing replied, nothing played. *)
Theorem bind_error_changes_nothing
  (data : Data) (argv : list string) (w : World) (e : Py.exn) :
  outcome (Bind.execute data argv w) = inl e ->
  world_of (Bind.execute data argv w) = w.
Proof.
  rewrite bind_paths. unfold outcome, world_of.
  destruct argv as [|T [|T' rest]]; simpl.
  - destruct (Sql.select_binds (author data) (conn w)) as [|r rows]; simpl;
      [reflexivity|].
    destruct (play_sound_or_alias (util data) (conn w) (bind r)); simpl;
      [reflexivity | discriminate].
  - destruct (resolve_sound_or_alias (util data) (conn w) T); simpl;
      [reflexivity | discriminate].
  - reflexivity.
Qed.

Lemma bind_error_changes_nothing_witness :
  outcome (Bind.execute Demo.data ["nosuchsound"] Demo.world)
  = inl (Py.Exception "Unknown sound or alias nosuchsound") /\
  world_of (Bind.execute Demo.data ["nosuchsound"] Demo.world) = Demo.world.
Proof.
  split; [reflexivity|].
  exact (bind_error_changes_nothing Demo.data ["nosuchsound"] Demo.world
           (Py.Exception "Unknown sound or alias nosuchsound") eq_refl).
Defined.

(** X2: [bind] touches only the caller's rows.  Whatever the arguments
    and the outcome, the rows of every other user are the same after the
    call, and the [aliases] table is the same. *)
Theorem bind_other_users_untouched
  (data : Data) (argv : list string) (w : World) (u : string) :
  u <> author data ->
  Sql.select_binds u (conn (world_of (Bind.execute data argv w)))
  = Sql.select_binds u (conn w) /\
  aliases (conn (world_of (Bind.execute data argv w))) = aliases (conn w).
Proof.
  intros Hu. rewrite bind_paths. unfold world_of.
  destruct argv as [|T [|T' rest]]; simpl.
  - destruct (Sql.select_binds (author data) (conn w)) as [|r rows]; simpl;
      [auto|].
    destruct (play_sound_or_alias (util data) (conn w) (bind r)); simpl; auto.
  - destruct (resolve_sound_or_alias (util data) (conn w) T); simpl; [auto|].
    split; [now apply select_other_upsert | apply upsert_aliases].
  - auto.
Qed.

Lemma bind_other_users_untouched_witness :
  "alice" <> author Demo.data /\
  Sql.select_binds "alice"
    (conn (world_of (Bind.execute Demo.data ["airhorn"] Demo.world)))
  = [mkBind "alice" "wow"].
Proof.
  assert ("alice" <> author Demo.data) as H by discriminate.
  split; [exact H|].
  exact (proj1 (bind_other_users_untouched Demo.data ["airhorn"] Demo.world
                  "alice" H)).
Defined.

(** X3: setting a bind never plays it.  With one argument or more the
    audio output is untouched, whether the call succeeds or raises. *)
Theorem bind_set_never_plays (data : Data) (argv : list string) (w : World) :
  argv <> [] ->
  played (world_of (Bind.execute data argv w)) = played w.
Proof.
  intros Hargv. rewrite bind_paths. unfold world_of.
  destruct argv as [|T [|T' rest]]; simpl; [congruence| |reflexivity].
  destruct (resolve_sound_or_alias (util data) (conn w) T); reflexivity.
Qed.

Lemma bind_set_never_plays_witness :
  ["airhorn"] <> [] /\
  played (world_of (Bind.execute Demo.data ["airhorn"] Demo.world)) = [].
Proof.
  assert (["airhorn"] <> []) as H by discriminate.
  split; [exact H|].
  exact (bind_set_never_plays Demo.data ["airhorn"] Demo.world H).
Defined.

(** X4: [bind] leaves no uncommitted write.  If the connection held no
    pending change before the call, it holds none after it, on every
    path. *)
Theorem bind_commits (data : Data) (argv : list string) (w : World) :
  committed w = conn w ->
  committed (world_of (Bind.execute data argv w))
  = conn (world_of (Bind.execute data argv w)).
Proof.
  intros Hc. rewrite bind_paths. unfold world_of.
  destruct argv as [|T [|T' rest]]; simpl.
  - destruct (Sql.select_binds (author data) (conn w)) as [|r rows]; simpl;
      [exact Hc|].
    destruct (play_sound_or_alias (util data) (conn w) (bind r)); exact Hc.
  - destruct (resolve_sound_or_alias (util data) (conn w) T); simpl;
      [exact Hc | reflexivity].
  - exact Hc.
Qed.

Lemma bind_commits_witness :
  committed Demo.world = conn Demo.world /\
  committed (world_of (Bind.execute Demo.data ["airhorn"] Demo.world))
  = mkDB [mkBind "alice" "wow"; mkBind "bob" "airhorn"] (aliases Demo.db).
Proof.
  split; [reflexivity|].
  exact (bind_commits Demo.data ["airhorn"] Demo.world eq_refl).
Defined.

(** X5: binding the same token twice is binding it once.  When the token
    resolves both times, the second [bind T] leaves the store, as seen
    and as committed, exactly as the first left it. *)
Theorem bind_same_token_twice (data : Data) (T : string) (w : World) :
  let r1 := Bind.execute data [T] w in
  let r2 := Bind.execute data [T] (world_of r1) in
  resolve_sound_or_alias (util data) (conn w) T = None ->
  resolve_sound_or_alias (util data) (conn (world_of r1)) T = None ->
  outcome r2 = inr tt /\
  conn (world_of r2) = conn (world_of r1) /\
  committed (world_of r2) = committed (world_of r1).
Proof.
  intros r1 r2 H1. subst r2 r1. rewrite (bind_paths data [T] w), H1.
  unfold world_of, outcome; cbn [fst snd].
  match goal with |- context [conn ?x] => set (w1 := x) end.
  intros H2. rewrite (bind_paths data [T] w1), H2.
  subst w1; simpl. rewrite upsert_idempotent. auto.
Qed.

Lemma bind_same_token_twice_witness :
  resolve_sound_or_alias (util Demo.data) (conn Demo.world) "airhorn" = None /\
  resolve_sound_or_alias (util Demo.data)
    (conn (world_of (Bind.execute Demo.data ["airhorn"] Demo.world))) "airhorn"
  = None /\
  conn (world_of (Bind.execute Demo.data ["airhorn"]
                    (world_of (Bind.execute Demo.data ["airhorn"] Demo.world))))
  = conn (world_of (Bind.execute Demo.data ["airhorn"] Demo.world)).
Proof.
  split; [reflexivity|]. split; [reflexivity|].
  exact (proj1 (proj2 (bind_same_token_twice Demo.data "airhorn" Demo.world
                         eq_refl eq_refl))).
Defined.

(** X6: what a successful [bind T] does to the table, with or without
    duplicates in it.  Afterwards every row of the caller holds [T]; the
    caller has one row if there was none and as many as before otherwise
    (duplicate rows are re-valued, never removed); the table has grown by
    one row exactly when the caller had none. *)
Theorem bind_set_rows (data : Data) (T : string) (w : World) :
  let before := Sql.select_binds (author data) (conn w) in
  let w' := world_of (Bind.execute data [T] w) in
  resolve_sound_or_alias (util data) (conn w) T = None ->
  Forall (fun r => username r = author data /\ bind r = T)
         (Sql.select_binds (author data) (conn w')) /\
  length (Sql.select_binds (author data) (conn w')) = Nat.max 1 (length before) /\
  length (binds (conn w'))
  = length (binds (conn w)) + match before with [] => 1 | _ :: _ => 0 end.
Proof.
  intros before w' Hres. subst w'.
  rewrite (bind_paths data [T] w), Hres. unfold world_of; cbn [snd conn].
  rewrite select_upsert. unfold upsert, fetchone. fold before.
  assert (forall r, In r before -> username r = author data) as Huser
    by (intros r; apply select_binds_username).
  destruct before as [|r rows]; simpl.
  - repeat split; [repeat constructor|].
    rewrite length_app. reflexivity.
  - repeat split.
    + constructor; [split; [apply (Huser r); now left | reflexivity]|].
      apply Forall_forall. intros x Hx. apply in_map_iff in Hx.
      destruct Hx as [y [<- Hy]]. simpl.
      split; [apply (Huser y); now right | reflexivity].
    + now rewrite length_map.
    + rewrite length_map. lia.
Qed.

Lemma bind_set_rows_witness :
  resolve_sound_or_alias (util Demo.data) (conn Demo.world) "airhorn" = None /\
  length (binds (conn (world_of (Bind.execute Demo.data ["airhorn"] Demo.world))))
  = 2.
Proof.
  split; [reflexivity|].
  exact (proj2 (proj2 (bind_set_rows Demo.data "airhorn" Demo.world eq_refl))).
Defined.

(** X7: the invariant of the data model is kept by every run of [bind]
    calls.  From a store with at most one row per username, any sequence
    of invocations, by any users, with any arguments, succeeding or
    raising, leaves at most one row per username. *)
Theorem binds_stay_unique (calls : list (Data * list string)) (w : World) :
  one_bind_per_user (conn w) ->
  one_bind_per_user (conn (after_binds calls w)).
Proof.
  revert w; induction calls as [|[data argv] calls IH]; intros w Hinv; simpl.
  - exact Hinv.
  - apply IH. now apply bind_keeps_invariant.
Qed.

Lemma binds_stay_unique_witness :
  one_bind_per_user (conn Demo.world) /\
  one_bind_per_user
    (conn (after_binds [(Demo.data, ["airhorn"]); (Demo.data, []);
                        (mkData "alice" Demo.util, ["nosuchsound"]);
                        (mkData "alice" Demo.util, ["airhorn"]);
                        (Demo.data, ["wow"])] Demo.world)).
Proof.
  assert (one_bind_per_user (conn Demo.world)) as H.
  { intros u. unfold Sql.select_binds.
    cbn [binds conn Demo.world Demo.db filter username].
    destruct (String.eqb "alice" u); cbn [length]; lia. }
  split; [exact H|].
  exact (binds_stay_unique _ Demo.world H).
Defined.

(** ** Every path of [search] *)

Lemma append_empty_r (s : string) : s ++ "" = s.
Proof. induction s as [|a s IH]; simpl; [reflexivity | now rewrite IH]. Qed.

Lemma append_assoc (s t u : string) : (s ++ t) ++ u = s ++ (t ++ u).
Proof. induction s as [|a s IH]; simpl; [reflexivity | now rewrite IH]. Qed.

Lemma string_leb_prefix (s t : string) : String.leb s (s ++ t) = true.
Proof.
  unfold String.leb. induction s as [|a s IH]; simpl.
  - destruct t; reflexivity.
  - now rewrite ascii_compare_refl.
Qed.

(** [search] in closed form: what each of its paths returns and leaves. *)
Lemma search_paths (data : Data) (argv : list string) (w : World) :
  Search.execute data argv w
  = match argv with
    | [] => (inl (Py.Exception "a keyword is required"), w)
    | kw :: rest =>
        let rows := Search.matching kw (Sql.select_aliases (conn w)) in
        let pages := into_pages (util data) Search.columns rows in
        match rows with
        | [] =>
            (inl (Py.Exception ("couldn't find any aliases like '" ++ kw ++ "'")),
             w)
        | _ :: _ =>
            match match rest with
                  | arg1 :: _ => Py.int arg1
                  | [] => inr 1%Z
                  end with
            | inl e => (inl e, w)
            | inr p =>
                if (p - 1 <? 0)%Z || (p - 1 >=? Z.of_nat (length pages))%Z
                then (inl (Py.Exception "invalid page number"), w)
                else (inr tt, shown p pages w)
            end
        end
    end.
Proof.
  destruct argv as [|kw rest]; [reflexivity|]. cbv zeta.
  destruct (Search.matching kw (Sql.select_aliases (conn w))) as [|r rs] eqn:E.
  - unfold Search.execute, mbind, query. cbn [fst snd]. now rewrite E.
  - rewrite <- E. apply search_found. rewrite E. discriminate.
Qed.

(** Two worlds whose alias tables read the same under the query get the
    same outcome from [search], and the same replies are added. *)
Lemma search_same_rows (data : Data) (argv : list string) (w w' : World) :
  Sql.select_aliases (conn w') = Sql.select_aliases (conn w) ->
  outcome (Search.execute data argv w') = outcome (Search.execute data argv w) /\
  exists added,
    replies (world_of (Search.execute data argv w)) = (replies w ++ added)%list /\
    replies (world_of (Search.execute data argv w')) = (replies w' ++ added)%list.
Proof.
  intros Hsel. rewrite !search_paths. cbv zeta. rewrite Hsel.
  unfold outcome, world_of.
  destruct argv as [|kw rest]; simpl.
  { split; [reflexivity|]. exists []. now rewrite !app_nil_r. }
  destruct (Search.matching kw (Sql.select_aliases (conn w))) as [|r rs]; simpl.
  { split; [reflexivity|]. exists []. now rewrite !app_nil_r. }
  destruct (match rest with
            | [] => inr 1%Z
            | arg1 :: _ => Py.int arg1
            end) as [e|p]; simpl.
  { split; [reflexivity|]. exists []. now rewrite !app_nil_r. }
  destruct (_ || _); simpl.
  { split; [reflexivity|]. exists []. now rewrite !app_nil_r. }
  split; [reflexivity|]. eexists. split; reflexivity.
Qed.

Lemma bind_keeps_aliases (data : Data) (argv : list string) (w : World) :
  aliases (conn (world_of (Bind.execute data argv w))) = aliases (conn w).
Proof.
  rewrite bind_paths. unfold world_of.
  destruct argv as [|T [|T' rest]]; simpl; [| |reflexivity].
  - destruct (Sql.select_binds (author data) (conn w)) as [|r rows]; simpl;
      [reflexivity|].
    destruct (play_sound_or_alias (util data) (conn w) (bind r)); reflexivity.
  - destruct (resolve_sound_or_alias (util data) (conn w) T); simpl;
      [reflexivity | apply upsert_aliases].
Qed.

(** Sorted lists of rows with distinct names are determined by their
    content. *)
Lemma sorted_rows_unique (l1 l2 : list AliasRow) :
  StronglySorted by_commandname l1 -> StronglySorted by_commandname l2 ->
  Permutation l1 l2 -> NoDup (map commandname l1) -> l1 = l2.
Proof.
  revert l2; induction l1 as [|a l1 IH]; intros l2 Hs1 Hs2 Hperm Hnd.
  - now apply Permutation_nil in Hperm.
  - destruct l2 as [|b l2];
      [apply Permutation_sym, Permutation_nil in Hperm; discriminate|].
    apply StronglySorted_inv in Hs1, Hs2.
    destruct Hs1 as [Hs1 Ha], Hs2 as [Hs2 Hb]. simpl in Hnd.
    apply NoDup_cons_iff in Hnd. destruct Hnd as [Hnotin Hnd].
    assert (a = b) as ->.
    { assert (In a (b :: l2)) as Ha2
        by (eapply Permutation_in; [exact Hperm | now left]).
      assert (In b (a :: l1)) as Hb1
        by (eapply Permutation_in; [symmetry; exact Hperm | now left]).
      destruct Hb1 as [Hab|Hb1]; [exact Hab|].
      destruct Ha2 as [Hba|Ha2]; [now symmetry|].
      rewrite Forall_forall in Ha, Hb.
      pose proof (String.leb_antisym _ _ (Ha b Hb1) (Hb a Ha2)) as Hname.
      exfalso. apply Hnotin. rewrite Hname. now apply in_map. }
    f_equal. apply IH; try assumption.
    eapply Permutation_cons_inv; exact Hperm.
Qed.

Lemma order_by_content (l1 l2 : list AliasRow) :
  Permutation l1 l2 -> NoDup (map commandname l1) ->
  Sql.order_by_commandname l1 = Sql.order_by_commandname l2.
Proof.
  intros Hperm Hnd. apply sorted_rows_unique; try apply order_by_sorted.
  - rewrite <- (order_by_perm l1), <- (order_by_perm l2). exact Hperm.
  - eapply Permutation_NoDup; [|exact Hnd].
    apply Permutation_map, order_by_perm.
Qed.

(** X8: when [search] raises, the world is exactly as before the call
    (no reply was sent), and the error is one of four: the missing
    keyword, no alias found, the [ValueError] of a page argument that is
    not an integer, or the page number out of range. *)
Theorem search_error_changes_nothing
  (data : Data) (argv : list string) (w : World) (e : Py.exn) :
  outcome (Search.execute data argv w) = inl e ->
  world_of (Search.execute data argv w) = w /\
  ((argv = [] /\ e = Py.Exception "a keyword is required") \/
   (exists kw rest, argv = kw :: rest /\
      e = Py.Exception ("couldn't find any aliases like '" ++ kw ++ "'")) \/
   (exists kw arg1 more, argv = kw :: arg1 :: more /\ e = Py.ValueError arg1) \/
   (argv <> [] /\ e = Py.Exception "invalid page number")).
Proof.
  rewrite search_paths. cbv zeta. unfold outcome, world_of.
  destruct argv as [|kw rest]; simpl.
  { intros [= <-]. auto. }
  destruct (Search.matching kw (Sql.select_aliases (conn w))) as [|r rs]; simpl.
  { intros [= <-]. split; [reflexivity|]. right; left. now exists kw, rest. }
  destruct rest as [|arg1 more].
  - destruct (_ || _); simpl; [|discriminate].
    intros [= <-]. split; [reflexivity|]. right; right; right.
    split; [discriminate | reflexivity].
  - unfold Py.int. destruct (Py.parse_int arg1) as [p|]; simpl.
    + destruct (_ || _); simpl; [|discriminate].
      intros [= <-]. split; [reflexivity|]. right; right; right.
      split; [discriminate | reflexivity].
    + intros [= <-]. split; [reflexivity|]. right; right; left.
      now exists kw, arg1, more.
Qed.

Lemma search_error_changes_nothing_witness :
  outcome (Search.execute Demo.data ["hel"; "7"] Demo.world)
  = inl (Py.Exception "invalid page number") /\
  world_of (Search.execute Demo.data ["hel"; "7"] Demo.world) = Demo.world.
Proof.
  split; [reflexivity|].
  exact (proj1 (search_error_changes_nothing Demo.data ["hel"; "7"] Demo.world
                  (Py.Exception "invalid page number") eq_refl)).
Defined.

(** X9: when [search] returns, it has sent exactly two replies: the
    header "Showing page p of n" with [1 <= p <= n], [n] the number of
    pages, and then the page at index [p - 1], which exists: the lookup
    [pages[page]] is always within bounds. *)
Theorem search_success_in_bounds
  (data : Data) (argv : list string) (w : World) :
  outcome (Search.execute data argv w) = inr tt ->
  exists kw rest p page,
    argv = kw :: rest /\
    let pages := into_pages (util data) Search.columns
                   (Search.matching kw (Sql.select_aliases (conn w))) in
    (1 <= p <= Z.of_nat (length pages))%Z /\
    nth_error pages (Z.to_nat (p - 1)) = Some page /\
    world_of (Search.execute data argv w)
    = mkWorld (conn w) (committed w)
              (replies w ++ [showing p (Z.of_nat (length pages)); page])
              (played w).
Proof.
  rewrite search_paths. cbv zeta. unfold outcome, world_of.
  destruct argv as [|kw rest]; simpl; [discriminate|].
  destruct (Search.matching kw (Sql.select_aliases (conn w))) as [|r rs] eqn:Erows;
    simpl; [discriminate|].
  set (pages := into_pages (util data) Search.columns (r :: rs)).
  destruct (match rest with
            | [] => inr 1%Z
            | arg1 :: _ => Py.int arg1
            end) as [e|p]; simpl; [discriminate|].
  destruct ((p - 1 <? 0)%Z || (p - 1 >=? Z.of_nat (length pages))%Z) eqn:E;
    simpl; [discriminate|].
  intros _. apply orb_false_iff in E. destruct E as [E1 E2].
  apply Z.ltb_ge in E1. rewrite Z.geb_leb in E2. apply Z.leb_gt in E2.
  exists kw, rest, p, (nth (Z.to_nat (p - 1)) pages "").
  split; [reflexivity|]. rewrite Erows. fold pages.
  split; [lia|]. split; [|reflexivity].
  apply nth_error_nth'. lia.
Qed.

Lemma search_success_in_bounds_witness :
  outcome (Search.execute Demo.data [""; "2"] Demo.world) = inr tt /\
  exists kw rest p page,
    [""; "2"] = kw :: rest /\
    let pages := into_pages (util Demo.data) Search.columns
                   (Search.matching kw (Sql.select_aliases (conn Demo.world))) in
    (1 <= p <= Z.of_nat (length pages))%Z /\
    nth_error pages (Z.to_nat (p - 1)) = Some page /\
    world_of (Search.execute Demo.data [""; "2"] Demo.world)
    = mkWorld (conn Demo.world) (committed Demo.world)
              (replies Demo.world ++ [showing p (Z.of_nat (length pages)); page])
              (played Demo.world).
Proof.
  split; [reflexivity|].
  exact (search_success_in_bounds Demo.data [""; "2"] Demo.world eq_refl).
Defined.

(** X10: [search] is read-only.  For every argument list and on every
    path the store, as seen and as committed, and the audio output are
    the same after the call, and the earlier replies are kept. *)
Theorem search_read_only (data : Data) (argv : list string) (w : World) :
  let w' := world_of (Search.execute data argv w) in
  conn w' = conn w /\ committed w' = committed w /\ played w' = played w /\
  exists added, replies w' = (replies w ++ added)%list.
Proof.
  cbv zeta. rewrite search_paths. cbv zeta. unfold world_of.
  assert (exists added, replies w = (replies w ++ added)%list) as Hnil
    by (exists []; now rewrite app_nil_r).
  destruct argv as [|kw rest]; simpl; [auto|].
  destruct (Search.matching kw (Sql.select_aliases (conn w))) as [|r rs]; simpl;
    [auto|].
  destruct (match rest with
            | [] => inr 1%Z
            | arg1 :: _ => Py.int arg1
            end) as [e|p]; simpl; [auto|].
  destruct (_ || _); simpl; [auto|].
  repeat split. eexists. reflexivity.
Qed.

(** X11: [bind] never changes what [search] answers.  After any [bind]
    invocation, by any user, succeeding or raising, a [search] has the
    same outcome and adds the same replies as it would have before. *)
Theorem search_after_bind
  (bdata sdata : Data) (bargv sargv : list string) (w : World) :
  let w1 := world_of (Bind.execute bdata bargv w) in
  outcome (Search.execute sdata sargv w1) = outcome (Search.execute sdata sargv w) /\
  exists added,
    replies (world_of (Search.execute sdata sargv w)) = (replies w ++ added)%list /\
    replies (world_of (Search.execute sdata sargv w1)) = (replies w1 ++ added)%list.
Proof.
  intros w1. apply search_same_rows.
  unfold Sql.select_aliases. subst w1. now rewrite bind_keeps_aliases.
Qed.

(** X12: a longer keyword never finds more.  Every row found for
    [kw ++ t] is found for [kw]; so when [search kw] finds no alias,
    [search] of any extension of [kw] raises the not-found error too. *)
Theorem search_longer_keyword
  (data : Data) (kw t : string) (rest : list string) (w : World) :
  (forall r, In r (Search.matching (kw ++ t) (Sql.select_aliases (conn w))) ->
             In r (Search.matching kw (Sql.select_aliases (conn w)))) /\
  (Search.matching kw (Sql.select_aliases (conn w)) = [] ->
   Search.execute data ((kw ++ t) :: rest) w
   = (inl (Py.Exception ("couldn't find any aliases like '" ++ (kw ++ t) ++ "'")),
      w)).
Proof.
  assert (forall r, In r (Search.matching (kw ++ t) (Sql.select_aliases (conn w))) ->
                    In r (Search.matching kw (Sql.select_aliases (conn w)))) as Hsub.
  { intros r. rewrite !matching_in. intros [Hin [u Hu]].
    split; [exact Hin|]. exists (t ++ u). now rewrite <- append_assoc. }
  split; [exact Hsub|].
  intros Hnone. rewrite search_paths. cbv zeta.
  destruct (Search.matching (kw ++ t) (Sql.select_aliases (conn w)))
    as [|r rs]; [reflexivity|].
  exfalso. specialize (Hsub r). rewrite Hnone in Hsub.
  apply Hsub. now left.
Qed.

Lemma search_longer_keyword_witness :
  Search.matching "zi" (Sql.select_aliases (conn Demo.world)) = [] /\
  Search.execute Demo.data ["zip"] Demo.world
  = (inl (Py.Exception "couldn't find any aliases like 'zip'"), Demo.world).
Proof.
  split; [reflexivity|].
  exact (proj2 (search_longer_keyword Demo.data "zi" "p" [] Demo.world) eq_refl).
Defined.

(** X13: an alias named exactly as the keyword is found, and listed
    first: the rows [search] paginates then start with a row of that
    name. *)
Theorem search_exact_name_first (kw : string) (w : World) (r : AliasRow) :
  In r (aliases (conn w)) -> commandname r = kw ->
  exists r' rs,
    Search.matching kw (Sql.select_aliases (conn w)) = r' :: rs /\
    commandname r' = kw.
Proof.
  intros Hin Hname.
  assert (In r (Search.matching kw (Sql.select_aliases (conn w)))) as Hr.
  { apply matching_in. split; [exact Hin|]. exists "".
    now rewrite append_empty_r. }
  assert (StronglySorted by_commandname
            (Search.matching kw (Sql.select_aliases (conn w)))) as Hs
    by apply filter_sorted, order_by_sorted.
  destruct (Search.matching kw (Sql.select_aliases (conn w))) as [|h rs] eqn:E;
    [destruct Hr|].
  exists h, rs. split; [reflexivity|].
  destruct Hr as [->|Hr]; [exact Hname|].
  apply StronglySorted_inv in Hs. destruct Hs as [_ Hh].
  rewrite Forall_forall in Hh. specialize (Hh r Hr).
  unfold by_commandname in Hh. rewrite Hname in Hh.
  assert (In h (Search.matching kw (Sql.select_aliases (conn w)))) as Hhin
    by (rewrite E; now left).
  apply matching_in in Hhin. destruct Hhin as [_ [t Ht]].
  apply String.leb_antisym; [exact Hh|].
  rewrite Ht. apply string_leb_prefix.
Qed.

Lemma search_exact_name_first_witness :
  In (Demo.alias "help") (aliases (conn Demo.world)) /\
  exists r' rs,
    Search.matching "help" (Sql.select_aliases (conn Demo.world)) = r' :: rs /\
    commandname r' = "help".
Proof.
  assert (In (Demo.alias "help") (aliases (conn Demo.world))) as H
    by (simpl; auto).
  split; [exact H|].
  exact (search_exact_name_first "help" Demo.world (Demo.alias "help") H eq_refl).
Defined.

(** X14: with distinct alias names, [search] does not depend on the order
    in which the table stores its rows: two stores holding the same
    aliases give the same outcome and add the same replies. *)
Theorem search_ignores_table_order
  (data : Data) (argv : list string) (w w' : World) :
  Permutation (aliases (conn w)) (aliases (conn w')) ->
  NoDup (map commandname (aliases (conn w))) ->
  outcome (Search.execute data argv w') = outcome (Search.execute data argv w) /\
  exists added,
    replies (world_of (Search.execute data argv w)) = (replies w ++ added)%list /\
    replies (world_of (Search.execute data argv w')) = (replies w' ++ added)%list.
Proof.
  intros Hperm Hnd. apply search_same_rows.
  unfold Sql.select_aliases. symmetry. now apply order_by_content.
Qed.

Lemma search_ignores_table_order_witness :
  Permutation (aliases (conn Demo.world))
              (aliases (mkDB [] (rev (aliases Demo.db)))) /\
  NoDup (map commandname (aliases (conn Demo.world))) /\
  outcome (Search.execute Demo.data ["hel"]
             (mkWorld (mkDB [] (rev (aliases Demo.db))) (mkDB [] []) [] []))
  = outcome (Search.execute Demo.data ["hel"] Demo.world).
Proof.
  assert (Permutation (aliases (conn Demo.world))
                      (aliases (mkDB [] (rev (aliases Demo.db))))) as Hp
    by apply Permutation_rev.
  assert (NoDup (map commandname (aliases (conn Demo.world)))) as Hn.
  { simpl. repeat constructor; simpl; intuition discriminate. }
  split; [exact Hp|]. split; [exact Hn|].
  exact (proj1 (search_ignores_table_order Demo.data ["hel"] Demo.world
                  (mkWorld (mkDB [] (rev (aliases Demo.db))) (mkDB [] []) [] [])
                  Hp Hn)).
Defined.

(** X15: leaving the page out is asking for page 1, and arguments after
    the page are never read. *)
Theorem search_page_defaults
  (data : Data) (kw : string) (w : World) :
  Search.execute data [kw] w = Search.execute data [kw; "1"] w /\
  forall arg1 more,
    Search.execute data (kw :: arg1 :: more) w
    = Search.execute data [kw; arg1] w.
Proof.
  split.
  - rewrite !search_paths. reflexivity.
  - intros arg1 more. rewrite !search_paths. reflexivity.
Qed.
